(** * openbci-driver: the command table, the Device reset handshake and the
      MockDevice packet generator of [openbci.go], embedded in Rocq.

    Conventions of the embedding.
    - A Go [byte] / [uint8] is a [Z] in [0, 256); [++] on a [uint8] is
      written with its wrap-around ([u8]).  A Go [int] is a [Z] wrapped to
      64 bits two's complement ([int_add]).
    - A [[]byte] is a [list Z].
    - The package-level [Command] map is a [gmap string Z]; indexing a Go
      map with an absent key yields the zero value ([Command_get]).
    - [time.Sleep] and [log.Printf] have no effect on the values computed
      and are left out. *)

From stdpp Require Import gmap strings list.
From Stdlib Require Import ZArith Lia.

Local Open Scope Z_scope.

(** ** Machine integers *)

Definition u8 (z : Z) : Z := z mod 256.

Definition int_wrap (z : Z) : Z := (z + 2 ^ 63) mod 2 ^ 64 - 2 ^ 63.

Definition int_add (a b : Z) : Z := int_wrap (a + b).

(** ** The command table (openbci.go, lines 29-36) *)

Definition Command : gmap string Z :=
  <["stop"   := 0x73]>
  (<["start"  := 0x62]>
  (<["reset"  := 0x76]>
  (<["footer" := 0xc0]>
  (<["header" := 0xa0]>
  (<["init"   := 0x24]> ∅))))).

(** [Command[name]] as Go evaluates it: the zero byte for an absent key. *)
Definition Command_get (name : string) : Z := default 0 (Command !! name).

(** ** isReset (openbci.go, lines 69-76) *)

Fixpoint isReset (buf : list Z) : bool :=
  match buf with
  | [] => false
  | val :: rest => if val =? Command_get "reset" then true else isReset rest
  end.

(** ** Errors and run outcomes *)

(** A Go [error] value that is not [nil]: the distinguished [io.EOF], or
    any other error, told apart by a code. *)
Inductive error : Type :=
| EOF
| ErrOther (code : nat).

Global Instance error_eq_dec : EqDecision error.
Proof. solve_decision. Defined.

(** What a call that may recurse or loop without bound does within a given
    fuel: it returns, it panics (index out of range), or the fuel runs out.
    Each outcome carries the state of the outside world it has reached. *)
Inductive run (S A : Type) : Type :=
| Done (s : S) (a : A)
| Panic (s : S)
| OutOfFuel (s : S).
Arguments Done {S A} s a.
Arguments Panic {S A} s.
Arguments OutOfFuel {S A} s.

(** [a[i]] and [a[i] = b] with Go's bounds check; [None] is the panic. *)
Definition get_index (a : list Z) (i : Z) : option Z :=
  if (0 <=? i) && (i <? Z.of_nat (length a)) then a !! Z.to_nat i else None.

Definition set_index (a : list Z) (i : Z) (b : Z) : option (list Z) :=
  if (0 <=? i) && (i <? Z.of_nat (length a)) then Some (<[Z.to_nat i := b]> a)
  else None.

(** ** Device (openbci.go, lines 55-144) *)

(** The three capabilities a Device holds act on the state [T] of the
    underlying connection.  A reader is offered the capacity [len(p)] and
    answers with the bytes it delivers and an error; the bytes are copied
    over the front of [p] ([copy_into]) and their number is the [n] of
    [Read].  A writer answers [(n, err)]. *)
Definition Reader (T : Type) : Type := T -> nat -> T * (list Z * option error).
Definition Writer (T : Type) : Type := T -> list Z -> T * (Z * option error).
Definition Closer (T : Type) : Type := T -> T * option error.

Record Device (T : Type) : Type := {
  r : Reader T;
  w : Writer T;
  c : Closer T
}.
Arguments r {T} _.
Arguments w {T} _.
Arguments c {T} _.

Definition copy_into (p data : list Z) : list Z :=
  take (length p) data ++ drop (length data) p.

Section DeviceMethods.
Context {T : Type}.

(** [d.r.Read(p)]: the transport's own answer, [(n, err)] and the buffer. *)
Definition r_Read (d : Device T) (s : T) (p : list Z)
  : T * (list Z * (Z * option error)) :=
  let '(s', (data, err)) := r d s (length p) in
  let p' := copy_into p data in
  (s', (p', (Z.of_nat (length (take (length p) data)), err))).

Definition Read (d : Device T) (s : T) (buf : list Z)
  : T * (list Z * (Z * option error)) :=
  let '(s', (buf', (n, err))) := r_Read d s buf in
  match err with
  | Some e => (s', (buf', (0, Some e)))
  | None => (s', (buf', (n, None)))
  end.

Definition init_array : list Z :=
  [Command_get "init"; Command_get "init"; Command_get "init"].

(** [Write], [reset] and the [for] loop of [reset] (here [poll]) call one
    another; every call and every iteration of the loop takes one unit of
    fuel.  [poll] carries the locals of [reset] that the loop uses: the
    one-byte [buf], [scrolling], [idx] and the count [n]. *)
Fixpoint Write (fuel : nat) (d : Device T) (s : T) (buf : list Z)
  : run T (Z * option error) :=
  match fuel with
  | O => OutOfFuel s
  | S fuel =>
    if isReset buf then
      match reset fuel d s buf with
      | Done s' (n, Some err) => Done s' (0, Some err)
      | Done s' (n, None) => Done s' (n, None)
      | Panic s' => Panic s'
      | OutOfFuel s' => OutOfFuel s'
      end
    else
      let '(s', (n, err)) := w d s buf in
      match err with
      | Some e => Done s' (0, Some e)
      | None => Done s' (n, None)
      end
  end
with reset (fuel : nat) (d : Device T) (s : T) (buf : list Z)
  : run T (Z * option error) :=
  match fuel with
  | O => OutOfFuel s
  | S fuel =>
    let n := 0 in
    let idx := 0 in
    let scrolling := [0; 0; 0] in
    let buf := [0] in
    match Write fuel d s [Command_get "stop"] with
    | Done s0 (n0, Some err) => Done s0 (0, Some err)
    | Done s0 (n0, None) =>
      let n := int_add n n0 in
      match Write fuel d s0 [Command_get "reset"] with
      | Done s1 (n1, Some err) => Done s1 (n, Some err)
      | Done s1 (n1, None) =>
        let n := int_add n n1 in
        poll fuel d s1 buf scrolling idx n
      | Panic s1 => Panic s1
      | OutOfFuel s1 => OutOfFuel s1
      end
    | Panic s0 => Panic s0
    | OutOfFuel s0 => OutOfFuel s0
    end
  end
with poll (fuel : nat) (d : Device T) (s : T)
          (buf scrolling : list Z) (idx n : Z)
  : run T (Z * option error) :=
  match fuel with
  | O => OutOfFuel s
  | S fuel =>
    let '(s', (buf, (_, err))) := Read d s buf in
    match err with
    | Some EOF => poll fuel d s' buf scrolling idx n
    | Some e => Done s' (n, Some e)
    | None =>
      match get_index buf 0 with
      | None => Panic s'
      | Some b =>
        match set_index scrolling (Z.rem idx 3) b with
        | None => Panic s'
        | Some scrolling =>
          let idx := int_add idx 1 in
          if decide (scrolling = init_array) then
            match Write fuel d s' [Command_get "start"] with
            | Done s2 (n2, Some err) => Done s2 (n, Some err)
            | Done s2 (n2, None) => Done s2 (int_add n n2, None)
            | Panic s2 => Panic s2
            | OutOfFuel s2 => OutOfFuel s2
            end
          else poll fuel d s' buf scrolling idx n
        end
      end
    end
  end.

Definition Close (d : Device T) (s : T) : T * option error :=
  let '(s', err) := c d s in
  match err with
  | Some e => (s', Some e)
  | None => (s', None)
  end.

End DeviceMethods.

(** ** A scripted connection, for running the Device on concrete inputs *)

(** [written] logs every buffer handed to the writer, oldest first.
    [write_script] holds the answers of the coming writes (a write beyond
    the script is accepted whole); [read_script] the answers of the coming
    reads (a read beyond the script reports [io.EOF], as a serial port whose
    read timeout expires does). *)
Record Script : Type := {
  written : list (list Z);
  write_script : list (Z * option error);
  read_script : list (list Z * option error)
}.

Definition script_Write : Writer Script := fun s p =>
  match write_script s with
  | [] =>
    ({| written := written s ++ [p]; write_script := [];
        read_script := read_script s |}, (Z.of_nat (length p), None))
  | a :: rest =>
    ({| written := written s ++ [p]; write_script := rest;
        read_script := read_script s |}, a)
  end.

Definition script_Read : Reader Script := fun s cap =>
  match read_script s with
  | [] => (s, ([], Some EOF))
  | a :: rest =>
    ({| written := written s; write_script := write_script s;
        read_script := rest |}, a)
  end.

Definition script_Close : Closer Script := fun s => (s, None).

Definition script_Device : Device Script :=
  {| r := script_Read; w := script_Write; c := script_Close |}.

(** ** MockDevice (openbci.go, lines 146-212) *)

Module Mock.

Record MockDevice : Type := {
  on : bool;
  seqcounter : Z;
  datacounter : Z;
  readstate : Z
}.

Definition NewMockDevice : MockDevice :=
  {| on := false; seqcounter := 0; datacounter := 0; readstate := 0 |}.

Definition set_on (v : bool) (md : MockDevice) : MockDevice :=
  {| on := v; seqcounter := seqcounter md; datacounter := datacounter md;
     readstate := readstate md |}.

(** [rand.Read] into a fresh one-byte buffer: the next byte of the entropy
    [e]; the buffer keeps its zero when the source gives nothing. *)
Definition rand_Read (e : list Z) : Z * list Z :=
  match e with
  | [] => (0, [])
  | x :: e' => (u8 x, e')
  end.

(** One iteration of [for idx := range p]: the device, the entropy and the
    count [b] after it, and the byte that [p[idx]] then holds ([old] when
    no case of the [switch] applies).  [b] never exceeds [len(p)], which
    fits an [int], so its increments are written without wrap-around. *)
Definition Read_slot (md : MockDevice) (e : list Z) (old : Z) (b : Z)
  : MockDevice * list Z * Z * Z :=
  match readstate md with
  | 0 =>
    ({| on := on md; seqcounter := seqcounter md;
        datacounter := datacounter md; readstate := u8 (readstate md + 1) |},
     e, Command_get "footer", b + 1)
  | 1 =>
    ({| on := on md; seqcounter := seqcounter md;
        datacounter := datacounter md; readstate := u8 (readstate md + 1) |},
     e, Command_get "header", b + 1)
  | 2 =>
    ({| on := on md; seqcounter := seqcounter md;
        datacounter := datacounter md; readstate := u8 (readstate md + 1) |},
     e, seqcounter md, b + 1)
  | 3 =>
    let '(x, e') := rand_Read e in
    let dc := u8 (datacounter md + 1) in
    if dc =? 30 then
      ({| on := on md; seqcounter := seqcounter md;
          datacounter := 0; readstate := u8 (readstate md + 1) |},
       e', x, b + 1)
    else
      ({| on := on md; seqcounter := seqcounter md;
          datacounter := dc; readstate := readstate md |},
       e', x, b + 1)
  | 4 =>
    ({| on := on md; seqcounter := u8 (seqcounter md + 1);
        datacounter := datacounter md; readstate := 1 |},
     e, Command_get "footer", b + 1)
  | _ => (md, e, old, b)
  end.

Fixpoint Read_range (md : MockDevice) (e : list Z) (p : list Z) (b : Z)
  : MockDevice * list Z * list Z * Z :=
  match p with
  | [] => (md, e, [], b)
  | old :: rest =>
    let '(md1, e1, x, b1) := Read_slot md e old b in
    let '(md2, e2, rest', b2) := Read_range md1 e1 rest b1 in
    (md2, e2, x :: rest', b2)
  end.

(** [Read] answers the device and the entropy after the call, the
    contents of [p] after the call, and [(n, err)]. *)
Definition Read (md : MockDevice) (e : list Z) (p : list Z)
  : MockDevice * list Z * list Z * (Z * option error) :=
  if on md then
    let '(md', e', p', b) := Read_range md e p 0 in
    (md', e', p', (b, None))
  else (md, e, p, (0, None)).

Definition Write (md : MockDevice) (p : list Z)
  : MockDevice * (Z * option error) :=
  match p with
  | [] => (md, (0, None))
  | p0 :: _ =>
    let md' :=
      if p0 =? Command_get "start" then set_on true md
      else if p0 =? Command_get "stop" then set_on false md
      else md in
    (md', (Z.of_nat (length p), None))
  end.

Definition Close (md : MockDevice) : MockDevice * option error := (md, None).

(** Successive [Read] calls, one per buffer of [ps]: the device and the
    entropy after the last call, and for every call the contents of its
    buffer and its [n]. *)
Fixpoint Reads (md : MockDevice) (e : list Z) (ps : list (list Z))
  : MockDevice * list Z * list (list Z * (Z * option error)) :=
  match ps with
  | [] => (md, e, [])
  | p :: ps' =>
    let '(md1, e1, p', res) := Read md e p in
    let '(md2, e2, outs) := Reads md1 e1 ps' in
    (md2, e2, (p', res) :: outs)
  end.

End Mock.

(** ** The packet framing in the words of the specification *)

(** The next [k] bytes of the random source, and what is left of it. *)
Fixpoint rand_bytes (k : nat) (e : list Z) : list Z * list Z :=
  match k with
  | O => ([], e)
  | S k' =>
    let '(x, e1) := Mock.rand_Read e in
    let '(xs, e2) := rand_bytes k' e1 in
    (x :: xs, e2)
  end.

(** One cycle after the opening footer: header, sequence byte, 30 payload
    bytes, footer. *)
Definition cycle (seq : Z) (e : list Z) : list Z :=
  [0xa0; seq] ++ (rand_bytes 30 e).1 ++ [0xc0].

(** [k] cycles in a row, the sequence byte counting up modulo 256. *)
Fixpoint cycles (k : nat) (seq : Z) (e : list Z) : list Z :=
  match k with
  | O => []
  | S k' => cycle seq e ++ cycles k' (u8 (seq + 1)) (rand_bytes 30 e).2
  end.

(** The 34-byte packet shape: footer, header, a sequence byte, 30 payload
    bytes, footer. *)
Definition packet34 (l : list Z) : bool :=
  bool_decide (length l = 34%nat) &&
  bool_decide (l !! 0%nat = Some 0xc0) &&
  bool_decide (l !! 1%nat = Some 0xa0) &&
  bool_decide (l !! 33%nat = Some 0xc0).

(** The [i]-th block of 34 bytes of a stream. *)
Definition block34 (i : nat) (l : list Z) : list Z :=
  take 34 (drop (34 * i) l).

(** A freshly created MockDevice after [Write] of the start byte. *)
Definition armed : Mock.MockDevice := (Mock.Write Mock.NewMockDevice [0x62]).1.

(** ** Connections and devices of the scenarios *)

(** The connection of the handshake scenario: every write is accepted whole,
    and the reads deliver 0x01, 0x24, 0x24, 0x24, 0x02, one byte each. *)
Definition handshake_conn : Script :=
  {| written := []; write_script := [];
     read_script := [([0x01], None); ([0x24], None); ([0x24], None);
                     ([0x24], None); ([0x02], None)] |}.

(** A transport whose writer accepts every buffer, logging it, and whose
    reader delivers an init byte at every read. *)
Definition accepting_Device : Device (list (list Z)) :=
  {| r := fun s _ => (s, ([0x24], None));
     w := fun s p => (s ++ [p], (Z.of_nat (length p), None));
     c := fun s => (s, None) |}.

(** The connection on which the first write succeeds with one byte and the
    second write fails. *)
Definition failing_conn : Script :=
  {| written := []; write_script := [(1, None); (0, Some (ErrOther 5))];
     read_script := [] |}.

(** The connection whose reads deliver one init byte and then twice nothing,
    without error. *)
Definition silent_conn : Script :=
  {| written := []; write_script := [];
     read_script := [([0x24], None); ([], None); ([], None)] |}.

(** Evaluate the wrap-around of a constant. *)
Ltac u8_const :=
  repeat match goal with
  | |- context [u8 (?a + ?b)] =>
    lazymatch a with Z0 => idtac | Zpos _ => idtac end;
    lazymatch b with Z0 => idtac | Zpos _ => idtac end;
    let v := eval vm_compute in (u8 (a + b)) in
    change (u8 (a + b)) with v
  end.

(** Reduce the projections of a MockDevice given by its fields. *)
Ltac mock_fields :=
  cbn [Mock.on Mock.seqcounter Mock.datacounter Mock.readstate] in *.

(** A run that has come to its end within the fuel, by return or panic. *)
Definition finished {S A : Type} (x : run S A) : Prop :=
  match x with
  | OutOfFuel _ => False
  | _ => True
  end.

(** The phase stays one of the five of the [switch]. *)
Definition phase_ok (md : Mock.MockDevice) : Prop := 0 <= Mock.readstate md <= 4.

(** ** What a read stream delivers to the polling loop *)

(** One read of the one-byte buffer: a byte arrives without error, or the
    read reports [io.EOF] (the read timeout of the serial port), possibly
    with bytes delivered along with it. *)
Inductive arrival : Type :=
| Byte (b : Z)
| Timeout (data : list Z).

Definition arrival_script (a : arrival) : list Z * option error :=
  match a with
  | Byte b => ([b], None)
  | Timeout data => (data, Some EOF)
  end.

(** The bytes that arrived without error, in order. *)
Fixpoint bytes_of (evs : list arrival) : list Z :=
  match evs with
  | [] => []
  | Byte b :: evs' => b :: bytes_of evs'
  | Timeout _ :: evs' => bytes_of evs'
  end.

(** Three init bytes in a row somewhere in [l]. *)
Fixpoint has_triple (l : list Z) : bool :=
  match l with
  | [] => false
  | x :: t =>
    match t with
    | y :: z :: _ => (x =? 0x24) && (y =? 0x24) && (z =? 0x24)
    | _ => false
    end || has_triple t
  end.

(** The three bytes pushed last, oldest first, after pushing [bs] on top of
    [a], [b], [c]. *)
Fixpoint last3 (a b c : Z) (bs : list Z) : Z * Z * Z :=
  match bs with
  | [] => (a, b, c)
  | x :: bs' => last3 b c x bs'
  end.

(** The array [scrolling] when [idx] bytes have been pushed and the last
    three were [a], [b], [c]: slot [idx % 3] holds the oldest. *)
Definition window_of (idx a b c : Z) : list Z :=
  match idx mod 3 with
  | 0 => [a; b; c]
  | 1 => [c; a; b]
  | _ => [b; c; a]
  end.

(** The array [scrolling] after pushing [bs], when [idx] bytes had been
    pushed before and the last three were [a], [b], [c]. *)
Definition window_after (idx a b c : Z) (bs : list Z) : list Z :=
  window_of (idx + Z.of_nat (length bs))
            (last3 a b c bs).1.1 (last3 a b c bs).1.2 (last3 a b c bs).2.

(** ** Sequences of calls on a MockDevice *)

Inductive op : Type :=
| OpRead (e p : list Z)
| OpWrite (p : list Z)
| OpClose.

Definition apply_op (md : Mock.MockDevice) (o : op) : Mock.MockDevice :=
  match o with
  | OpRead e p => (Mock.Read md e p).1.1.1
  | OpWrite p => (Mock.Write md p).1
  | OpClose => (Mock.Close md).1
  end.

(** The device after the calls [ops] on a freshly created one. *)
Definition after_ops (ops : list op) : Mock.MockDevice :=
  fold_left apply_op ops Mock.NewMockDevice.

(** The counters are bytes, the phase is one of the five, and payload bytes
    are counted in the payload phase only. *)
Definition mock_inv (md : Mock.MockDevice) : Prop :=
  0 <= Mock.seqcounter md < 256 /\
  0 <= Mock.datacounter md < 30 /\
  0 <= Mock.readstate md <= 4 /\
  (Mock.datacounter md <> 0 -> Mock.readstate md = 3).

(** * Properties *)

(** ** The bytes of the command table *)

Lemma cmd_stop : Command_get "stop" = 0x73.
Proof. reflexivity. Qed.
Lemma cmd_start : Command_get "start" = 0x62.
Proof. reflexivity. Qed.
Lemma cmd_reset : Command_get "reset" = 0x76.
Proof. reflexivity. Qed.
Lemma cmd_footer : Command_get "footer" = 0xc0.
Proof. reflexivity. Qed.
Lemma cmd_header : Command_get "header" = 0xa0.
Proof. reflexivity. Qed.
Lemma cmd_init : Command_get "init" = 0x24.
Proof. reflexivity. Qed.

Lemma Command_dom :
  dom Command = ({["stop"; "start"; "reset"; "footer"; "header"; "init"]} : gset string).
Proof. unfold Command. rewrite !dom_insert_L, dom_empty_L. set_solver. Qed.


(** ** The command table and the reset-detection predicate *)

Lemma Command_as_list :
  Command = list_to_map
    [("stop", 0x73); ("start", 0x62); ("reset", 0x76);
     ("footer", 0xc0); ("header", 0xa0); ("init", 0x24)].
Proof. reflexivity. Qed.

(** C10: the command table holds exactly the six names stop, start, reset,
    footer, header and init, bound to 0x73, 0x62, 0x76, 0xC0, 0xA0 and 0x24:
    a name is bound to a value in [Command] if and only if the pair is one
    of these six. *)
Theorem Command_table_exact (name : string) (v : Z) :
  Command !! name = Some v <->
  (name, v) ∈ [("stop", 0x73); ("start", 0x62); ("reset", 0x76);
               ("footer", 0xc0); ("header", 0xa0); ("init", 0x24)].
Proof.
  rewrite Command_as_list. symmetry. apply elem_of_list_to_map.
  apply (bool_decide_unpack _). vm_compute. exact I.
Qed.

(** C8: [isReset] answers true exactly for the buffers in which the byte
    0x76 occurs at some position; the empty buffer gives false. *)
Theorem isReset_iff_occurs (buf : list Z) :
  (isReset buf = true <-> 0x76 ∈ buf) /\ isReset [] = false.
Proof.
  split; [|reflexivity].
  induction buf as [|val rest IH]; simpl.
  - split; [discriminate|]. intros H. by apply elem_of_nil in H.
  - rewrite cmd_reset, elem_of_cons. destruct (Z.eqb_spec val 0x76) as [->|Hne].
    + split; auto.
    + rewrite IH. split; [by right|]. intros [Heq|Hin]; [congruence|done].
Qed.

(** ** The Device: unfolding equations *)

Section DeviceFacts.
Context {T : Type} (d : Device T).

Lemma Write_S fuel s buf :
  Write (S fuel) d s buf =
  if isReset buf then
    match reset fuel d s buf with
    | Done s' (n, Some err) => Done s' (0, Some err)
    | Done s' (n, None) => Done s' (n, None)
    | Panic s' => Panic s'
    | OutOfFuel s' => OutOfFuel s'
    end
  else
    let '(s', (n, err)) := w d s buf in
    match err with
    | Some e => Done s' (0, Some e)
    | None => Done s' (n, None)
    end.
Proof. reflexivity. Qed.

Lemma reset_S fuel s buf :
  reset (S fuel) d s buf =
  match Write fuel d s [0x73] with
  | Done s0 (n0, Some err) => Done s0 (0, Some err)
  | Done s0 (n0, None) =>
    match Write fuel d s0 [0x76] with
    | Done s1 (n1, Some err) => Done s1 (int_add 0 n0, Some err)
    | Done s1 (n1, None) =>
      poll fuel d s1 [0] [0; 0; 0] 0 (int_add (int_add 0 n0) n1)
    | Panic s1 => Panic s1
    | OutOfFuel s1 => OutOfFuel s1
    end
  | Panic s0 => Panic s0
  | OutOfFuel s0 => OutOfFuel s0
  end.
Proof. reflexivity. Qed.

Lemma poll_S fuel s buf scrolling idx n :
  poll (S fuel) d s buf scrolling idx n =
  let '(s', (buf1, (_, err))) := Read d s buf in
  match err with
  | Some EOF => poll fuel d s' buf1 scrolling idx n
  | Some e => Done s' (n, Some e)
  | None =>
    match get_index buf1 0 with
    | None => Panic s'
    | Some b =>
      match set_index scrolling (Z.rem idx 3) b with
      | None => Panic s'
      | Some scrolling1 =>
        if decide (scrolling1 = init_array) then
          match Write fuel d s' [0x62] with
          | Done s2 (n2, Some err) => Done s2 (n, Some err)
          | Done s2 (n2, None) => Done s2 (int_add n n2, None)
          | Panic s2 => Panic s2
          | OutOfFuel s2 => OutOfFuel s2
          end
        else poll fuel d s' buf1 scrolling1 (int_add idx 1) n
      end
    end
  end.
Proof. reflexivity. Qed.

(** A buffer without the reset byte goes to the transport as it is. *)
Lemma Write_passthrough fuel s buf :
  isReset buf = false ->
  Write (S fuel) d s buf =
  match w d s buf with
  | (s', (n, Some e)) => Done s' (0, Some e)
  | (s', (n, None)) => Done s' (n, None)
  end.
Proof.
  intros Hb. rewrite Write_S, Hb. by destruct (w d s buf) as [s' [n [e|]]].
Qed.

(** [reset] writes the reset byte through [Device.Write], which sees the
    reset byte and enters [reset] again: as long as the stop writes
    succeed, neither returns, whatever the fuel. *)
Lemma reset_reenters :
  (forall s, (w d s [0x73]).2.2 = None) ->
  forall fuel,
    (forall s buf, isReset buf = true -> exists s', Write fuel d s buf = OutOfFuel s') /\
    (forall s buf, exists s', reset fuel d s buf = OutOfFuel s').
Proof.
  intros Hstop fuel. induction fuel as [|f [IHW IHR]].
  - split; intros; eexists; reflexivity.
  - split.
    + intros s buf Hb. rewrite Write_S, Hb.
      destruct (IHR s buf) as [s' ->]. eauto.
    + intros s buf. rewrite reset_S. destruct f as [|f'].
      * simpl. eauto.
      * rewrite Write_passthrough by reflexivity.
        specialize (Hstop s).
        destruct (w d s [0x73]) as [s0 [n0 err]]. simpl in Hstop. subst err.
        destruct (IHW s0 [0x76] eq_refl) as [s1 ->]. eauto.
Qed.

(** More fuel does not change the outcome of a run that has finished. *)
Lemma fuel_mono (fuel : nat) :
  (forall s buf, finished (Write fuel d s buf) ->
     Write (S fuel) d s buf = Write fuel d s buf) /\
  (forall s buf, finished (reset fuel d s buf) ->
     reset (S fuel) d s buf = reset fuel d s buf) /\
  (forall s buf scrolling idx n, finished (poll fuel d s buf scrolling idx n) ->
     poll (S fuel) d s buf scrolling idx n = poll fuel d s buf scrolling idx n).
Proof.
  induction fuel as [|f (IHW & IHR & IHP)]; [by repeat split|].
  split_and!.
  - intros s buf. rewrite (Write_S (S f)), (Write_S f).
    destruct (isReset buf); [|done].
    destruct (reset f d s buf) as [s1 [n1 e1]|s1|s1] eqn:E; [| |done];
      intros _; rewrite IHR, E; by rewrite ?E.
  - intros s buf. rewrite (reset_S (S f)), (reset_S f).
    destruct (Write f d s [0x73]) as [s0 [n0 e0]|s0|s0] eqn:E0; [| |done];
      rewrite IHW, E0 by (by rewrite E0); [|done].
    destruct e0 as [e0|]; [done|].
    destruct (Write f d s0 [0x76]) as [s1 [n1 e1]|s1|s1] eqn:E1; [| |done];
      rewrite IHW, E1 by (by rewrite E1); [|done].
    destruct e1 as [e1|]; [done|]. apply IHP.
  - intros s buf scrolling idx n. rewrite (poll_S (S f)), (poll_S f).
    destruct (Read d s buf) as [s1 [buf1 [n1 err]]].
    destruct err as [[|code]|]; [apply IHP|done|].
    destruct (get_index buf1 0) as [b|]; [|done].
    destruct (set_index scrolling (Z.rem idx 3) b) as [scrolling1|]; [|done].
    destruct (decide (scrolling1 = init_array)); [|apply IHP].
    destruct (Write f d s1 [0x62]) as [s2 [n2 e2]|s2|s2] eqn:E2; [| |done];
      intros _; rewrite IHW, E2; by rewrite ?E2.
Qed.

(** On any transport, a write that holds the reset byte never comes back
    with success: either it is still running when the fuel is spent, or a
    stop write has failed and its error comes back with the count 0.  The
    polling loop is entered by no run of [reset]. *)
Lemma Write_reset_outcome (fuel : nat) :
  (forall s buf, isReset buf = true ->
     (exists s', Write fuel d s buf = OutOfFuel s') \/
     (exists s' e, Write fuel d s buf = Done s' (0, Some e))) /\
  (forall s buf,
     (exists s', reset fuel d s buf = OutOfFuel s') \/
     (exists s' n e, reset fuel d s buf = Done s' (n, Some e))).
Proof.
  induction fuel as [|f [IHW IHR]].
  - split; intros; left; eexists; reflexivity.
  - split.
    + intros s buf Hb. rewrite Write_S, Hb.
      destruct (IHR s buf) as [[s' ->]|(s' & n & e & ->)]; eauto.
    + intros s buf. rewrite reset_S. destruct f as [|f'].
      * left. simpl. eauto.
      * rewrite Write_passthrough by reflexivity.
        destruct (w d s [0x73]) as [s0 [n0 [e0|]]]; [eauto|].
        destruct (IHW s0 [0x76] eq_refl) as [[s1 ->]|(s1 & e1 & ->)]; eauto.
Qed.

End DeviceFacts.

(** ** The reset handshake *)

(** On a scripted connection that accepts every write, a run of the
    handshake only ever appends stop writes to the log. *)
Lemma script_reset_log (rs : list (list Z * option error)) (fuel : nat) :
  (forall l buf, isReset buf = true ->
     exists k, Write fuel script_Device
                 {| written := l; write_script := []; read_script := rs |} buf
               = OutOfFuel {| written := l ++ replicate k [0x73];
                              write_script := []; read_script := rs |}) /\
  (forall l buf,
     exists k, reset fuel script_Device
                 {| written := l; write_script := []; read_script := rs |} buf
               = OutOfFuel {| written := l ++ replicate k [0x73];
                              write_script := []; read_script := rs |}).
Proof.
  induction fuel as [|f [IHW IHR]].
  - split; intros; exists 0%nat; simpl; by rewrite app_nil_r.
  - split.
    + intros l buf Hb. rewrite Write_S, Hb.
      destruct (IHR l buf) as [k ->]. eauto.
    + intros l buf. rewrite reset_S. destruct f as [|f'].
      * exists 0%nat. simpl. by rewrite app_nil_r.
      * rewrite Write_passthrough by reflexivity.
        cbn [w script_Device script_Write write_script written read_script].
        destruct (IHW (l ++ [[0x73]]) [0x76] eq_refl) as [k ->].
        exists (S k). by rewrite <- app_assoc.
Qed.

(** C1: with a transport that accepts every write and whose reads deliver
    0x01, 0x24, 0x24, 0x24, 0x02, [Device.Write] of a buffer holding the
    reset byte does not return [(3, nil)]: whatever the fuel, the call is
    still running when the fuel is spent, the transport has been handed stop
    bytes only (never the reset byte, never the start byte), and no byte of
    the read stream has been consumed. *)
Theorem Write_reset_scenario_only_writes_stop (fuel : nat) :
  exists k : nat,
    Write fuel script_Device handshake_conn [0x76]
    = OutOfFuel {| written := replicate k [0x73]; write_script := [];
                   read_script := read_script handshake_conn |}.
Proof.
  destruct (script_reset_log (read_script handshake_conn) fuel) as [HW _].
  destruct (HW [] [0x76] eq_refl) as [k Hk]. exists k. exact Hk.
Qed.

(** C2: on every transport whose stop writes succeed, the handshake started
    by [Device.Write] does not terminate, whatever the read stream holds:
    for every fuel the call is still running when the fuel is spent. *)
Theorem Write_reset_never_returns {T : Type} (d : Device T) :
  (forall s, (w d s [0x73]).2.2 = None) ->
  forall (fuel : nat) (s : T) (buf : list Z),
    isReset buf = true -> exists s', Write fuel d s buf = OutOfFuel s'.
Proof.
  intros Hstop fuel. apply (reset_reenters d Hstop fuel).
Qed.

Lemma Write_reset_never_returns_witness :
  (forall s, (w accepting_Device s [0x73]).2.2 = None) /\
  isReset [0x76] = true /\
  exists s', Write 1000 accepting_Device [] [0x76] = OutOfFuel s'.
Proof.
  split; [intros s; reflexivity|]. split; [reflexivity|].
  apply (Write_reset_never_returns accepting_Device);
    [intros s; reflexivity | reflexivity].
Defined.

(** C3, as stated, fails: after a successful stop write (1 byte) the next
    write fails; [reset] hands back the count 1 with the error, and
    [Device.Write] returns the error with the count 0. *)
Lemma Write_drops_partial_count :
  reset 4 script_Device failing_conn [0x76]
    = Done {| written := [[0x73]; [0x73]]; write_script := []; read_script := [] |}
           (1, Some (ErrOther 5)) /\
  Write 5 script_Device failing_conn [0x76]
    = Done {| written := [[0x73]; [0x73]]; write_script := []; read_script := [] |}
           (0, Some (ErrOther 5)).
Proof. split; reflexivity. Qed.

(** C3, amended: whenever [Device.Write] returns an error to its caller,
    the handshake having aborted or the transport having refused a plain
    write, the byte count that comes with it is 0. *)
Theorem Write_error_count_zero {T : Type} (d : Device T) (fuel : nat)
    (s s' : T) (buf : list Z) (n : Z) (e : error) :
  Write fuel d s buf = Done s' (n, Some e) -> n = 0.
Proof.
  destruct fuel as [|f]; [discriminate|]. rewrite Write_S.
  destruct (isReset buf).
  - destruct (reset f d s buf) as [s1 [n1 [e1|]]|s1|s1]; congruence.
  - destruct (w d s buf) as [s1 [n1 [e1|]]]; congruence.
Qed.

Lemma Write_error_count_zero_witness :
  Write 5 script_Device failing_conn [0x76]
    = Done {| written := [[0x73]; [0x73]]; write_script := []; read_script := [] |}
           (0, Some (ErrOther 5)) /\
  (0 : Z) = 0.
Proof.
  split; [reflexivity|].
  apply (Write_error_count_zero script_Device 5 failing_conn
           {| written := [[0x73]; [0x73]]; write_script := []; read_script := [] |}
           [0x76] 0 (ErrOther 5)).
  reflexivity.
Defined.

(** ** The polling loop *)

(** C9: in the polling loop of [reset], a read that reports [io.EOF] is
    retried with the window and the index untouched; a read that reports
    any other error ends the handshake with that error; and a read that
    delivers no byte and reports no error is not retried: the byte [b] that
    the one-byte buffer already holds goes into the window at slot
    [idx % 3], exactly as if a read had just delivered it. *)
Theorem poll_read_outcomes {T : Type} (d : Device T) (fuel : nat) (s s' : T)
    (buf scrolling data : list Z) (idx n : Z) :
  (r d s (length buf) = (s', (data, Some EOF)) ->
   poll (S fuel) d s buf scrolling idx n
   = poll fuel d s' (copy_into buf data) scrolling idx n) /\
  (forall code,
   r d s (length buf) = (s', (data, Some (ErrOther code))) ->
   poll (S fuel) d s buf scrolling idx n = Done s' (n, Some (ErrOther code))) /\
  (forall b,
   r d s 1%nat = (s', ([], None)) ->
   length scrolling = 3%nat -> 0 <= idx ->
   poll (S fuel) d s [b] scrolling idx n
   = (let scrolling1 := <[Z.to_nat (idx mod 3) := b]> scrolling in
      if decide (scrolling1 = [0x24; 0x24; 0x24]) then
        match Write fuel d s' [0x62] with
        | Done s2 (n2, Some err) => Done s2 (n, Some err)
        | Done s2 (n2, None) => Done s2 (int_add n n2, None)
        | Panic s2 => Panic s2
        | OutOfFuel s2 => OutOfFuel s2
        end
      else poll fuel d s' [b] scrolling1 (int_add idx 1) n)) /\
  (forall b x s0,
   r d s 1%nat = (s', ([], None)) ->
   r d s0 1%nat = (s', ([b], None)) ->
   poll (S fuel) d s [b] scrolling idx n
   = poll (S fuel) d s0 [x] scrolling idx n).
Proof.
  split; [|split; [|split]].
  - intros Hr. rewrite poll_S. unfold Read, r_Read. by rewrite Hr.
  - intros code Hr. rewrite poll_S. unfold Read, r_Read. by rewrite Hr.
  - intros b Hr Hlen Hidx. rewrite poll_S. unfold Read, r_Read.
    cbn [length]. rewrite Hr. cbn -[Z.rem Z.modulo int_add Write poll].
    unfold set_index. rewrite Hlen, Z.rem_mod_nonneg by lia.
    assert (0 <= idx mod 3 < 3) as Hm by (apply Z.mod_pos_bound; lia).
    destruct (Z.leb_spec 0 (idx mod 3)); [|lia].
    destruct (Z.ltb_spec (idx mod 3) (Z.of_nat 3)); [|lia].
    reflexivity.
  - intros b x s0 Hr Hr0. rewrite !poll_S. unfold Read, r_Read.
    cbn [length]. by rewrite Hr, Hr0.
Qed.

Lemma poll_read_outcomes_witness :
  poll 4 script_Device silent_conn [0] [0; 0; 0] 0 2
  = Done {| written := [[0x62]]; write_script := []; read_script := [] |}
         (3, None).
Proof.
  transitivity
    (poll 3 script_Device
       {| written := []; write_script := [];
          read_script := [([], None); ([], None)] |}
       [0x24] [0x24; 0; 0] 1 2); [reflexivity|].
  pose proof (poll_read_outcomes script_Device 2
    {| written := []; write_script := []; read_script := [([], None); ([], None)] |}
    {| written := []; write_script := []; read_script := [([], None)] |}
    [0x24] [0x24; 0; 0] [] 1 2) as (_ & _ & H3 & _).
  rewrite (H3 0x24 eq_refl eq_refl ltac:(lia)). reflexivity.
Defined.

(** ** The MockDevice: command interpreter *)

(** C6: [MockDevice.Write] of the empty buffer returns [(0, nil)] and leaves
    the device as it is; of a non-empty buffer it looks at the first byte
    only (0x62 arms, 0x73 disarms, any other byte changes nothing) and
    returns the length of the buffer and no error. *)
Theorem MockDevice_Write_spec (md : Mock.MockDevice) :
  Mock.Write md [] = (md, (0, None)) /\
  forall (p0 : Z) (rest : list Z),
    Mock.Write md (p0 :: rest)
    = ((if decide (p0 = 0x62) then
          {| Mock.on := true; Mock.seqcounter := Mock.seqcounter md;
             Mock.datacounter := Mock.datacounter md;
             Mock.readstate := Mock.readstate md |}
        else if decide (p0 = 0x73) then
          {| Mock.on := false; Mock.seqcounter := Mock.seqcounter md;
             Mock.datacounter := Mock.datacounter md;
             Mock.readstate := Mock.readstate md |}
        else md),
       (Z.of_nat (length (p0 :: rest)), None)).
Proof.
  split; [reflexivity|]. intros p0 rest. unfold Mock.Write.
  rewrite cmd_start, cmd_stop. f_equal.
  destruct (decide (p0 = 98)) as [->|H1]; [reflexivity|].
  destruct (Z.eqb_spec p0 98); [done|].
  destruct (decide (p0 = 115)) as [->|H2]; [reflexivity|].
  by destruct (Z.eqb_spec p0 115).
Qed.

(** ** The MockDevice: reads while disarmed *)

Lemma Reads_disarmed (md : Mock.MockDevice) (e : list Z) (ps : list (list Z)) :
  Mock.on md = false ->
  Mock.Reads md e ps = (md, e, map (fun p => (p, (0, None))) ps).
Proof.
  intros Hoff. induction ps as [|p ps IH]; [reflexivity|].
  simpl. unfold Mock.Read. rewrite Hoff, IH. reflexivity.
Qed.

(** C7: a disarmed MockDevice answers every [Read] with [(0, nil)], leaves
    the caller's buffer, the phase and both counters as they were, and so
    does any number of reads in a row; after a stop write, any reads and a
    start write, the device reads on exactly as the device before the stop
    write would have, were it armed. *)
Theorem MockDevice_Read_disarmed (md : Mock.MockDevice) (e : list Z) (p : list Z) :
  Mock.on md = false ->
  Mock.Read md e p = (md, e, p, (0, None)) /\
  (forall (md0 : Mock.MockDevice) (ps : list (list Z)) (q : list Z),
     let md1 := (Mock.Write md0 [0x73]).1 in
     let md2 := (Mock.Reads md1 e ps).1.1 in
     let md3 := (Mock.Write md2 [0x62]).1 in
     md2 = md1 /\
     md3 = {| Mock.on := true; Mock.seqcounter := Mock.seqcounter md0;
              Mock.datacounter := Mock.datacounter md0;
              Mock.readstate := Mock.readstate md0 |} /\
     Mock.Read md3 (Mock.Reads md1 e ps).1.2 q
     = Mock.Read (Mock.set_on true md0) e q).
Proof.
  intros Hoff. split.
  - unfold Mock.Read. by rewrite Hoff.
  - intros md0 ps q md1 md2 md3. subst md3 md2.
    rewrite (Reads_disarmed md1 e ps) by reflexivity. simpl.
    repeat split; reflexivity.
Qed.

Lemma MockDevice_Read_disarmed_witness :
  Mock.on Mock.NewMockDevice = false /\
  Mock.Read Mock.NewMockDevice [7; 8] [1; 2; 3]
  = (Mock.NewMockDevice, [7; 8], [1; 2; 3], (0, None)).
Proof.
  split; [reflexivity|].
  apply (MockDevice_Read_disarmed Mock.NewMockDevice [7; 8] [1; 2; 3]).
  reflexivity.
Defined.

(** ** The MockDevice: packet generation *)

Lemma rand_bytes_length (k : nat) (e : list Z) : length (rand_bytes k e).1 = k.
Proof.
  revert e. induction k as [|k IH]; intros e; [reflexivity|].
  simpl. destruct (Mock.rand_Read e) as [x e1]. specialize (IH e1).
  destruct (rand_bytes k e1) as [xs e2]. simpl in *. by rewrite IH.
Qed.

Lemma cycle_length (seq : Z) (e : list Z) : length (cycle seq e) = 33%nat.
Proof.
  unfold cycle. rewrite !length_app, rand_bytes_length. reflexivity.
Qed.

(** Reading into [p1 ++ p2] is reading into [p1], then into [p2]. *)
Lemma Read_range_app (p1 p2 : list Z) (md : Mock.MockDevice) (e : list Z) (b : Z) :
  Mock.Read_range md e (p1 ++ p2) b =
  let '(md1, e1, o1, b1) := Mock.Read_range md e p1 b in
  let '(md2, e2, o2, b2) := Mock.Read_range md1 e1 p2 b1 in
  (md2, e2, o1 ++ o2, b2).
Proof.
  revert md e b. induction p1 as [|x p1 IH]; intros md e b; simpl.
  - by destruct (Mock.Read_range md e p2 b) as [[[md2 e2] o2] b2].
  - destruct (Mock.Read_slot md e x b) as [[[md1 e1] y] b1].
    rewrite IH.
    destruct (Mock.Read_range md1 e1 p1 b1) as [[[md1' e1'] o1] b1'].
    by destruct (Mock.Read_range md1' e1' p2 b1') as [[[md2 e2] o2] b2].
Qed.

Lemma Read_slot_count (md : Mock.MockDevice) (e : list Z) (old b : Z) :
  phase_ok md ->
  exists md' e' x,
    Mock.Read_slot md e old b = (md', e', x, b + 1) /\
    (forall b0, Mock.Read_slot md e old b0 = (md', e', x, b0 + 1)) /\
    phase_ok md' /\ Mock.on md' = Mock.on md.
Proof.
  unfold phase_ok. destruct md as [o sq dc rs]. simpl. intros Hrs.
  assert (rs = 0 \/ rs = 1 \/ rs = 2 \/ rs = 3 \/ rs = 4) as Hcase by lia.
  unfold Mock.Read_slot.
  destruct Hcase as [-> | [-> | [-> | [-> | ->]]]]; mock_fields;
    try (do 3 eexists; repeat split; mock_fields; u8_const; lia).
  destruct (Mock.rand_Read e) as [x e'].
  destruct (u8 (dc + 1) =? 30);
    do 3 eexists; repeat split; mock_fields; u8_const; lia.
Qed.

(** While the phase is one of the five, every slot of the buffer is filled:
    the count grows by the length of the buffer. *)
Lemma Read_range_count (p : list Z) (md : Mock.MockDevice) (e : list Z) (b : Z) :
  phase_ok md ->
  exists md' e' o,
    Mock.Read_range md e p b = (md', e', o, b + Z.of_nat (length p)) /\
    (forall b0, Mock.Read_range md e p b0 = (md', e', o, b0 + Z.of_nat (length p))) /\
    phase_ok md' /\ Mock.on md' = Mock.on md /\ length o = length p.
Proof.
  revert md e b. induction p as [|x p IH]; intros md e b Hok.
  - exists md, e, []. cbn [Mock.Read_range length Z.of_nat].
    split_and!; try done; [|intros b0]; by rewrite Z.add_0_r.
  - destruct (Read_slot_count md e x b Hok) as (md1 & e1 & y & Hs & Hs0 & Hok1 & Hon1).
    destruct (IH md1 e1 (b + 1) Hok1) as (md2 & e2 & o & Hr & Hr0 & Hok2 & Hon2 & Hlen).
    exists md2, e2, (y :: o).
    assert (forall b0, Mock.Read_range md e (x :: p) b0
                       = (md2, e2, y :: o, b0 + Z.of_nat (length (x :: p)))) as Hall.
    { intros b0. cbn [Mock.Read_range]. rewrite Hs0, Hr0. cbn [length].
      f_equal. lia. }
    split_and!; try done.
    + congruence.
    + cbn [length]. by rewrite Hlen.
Qed.

(** The payload phase: with [k] payload bytes still to come, the next [k]
    slots take the next [k] random bytes and the phase moves on to the
    trailing footer. *)
Lemma Read_range_payload (k : nat) :
  forall (md : Mock.MockDevice) (e p : list Z) (b : Z),
    length p = k -> (1 <= k <= 30)%nat ->
    Mock.readstate md = 3 -> Mock.datacounter md = 30 - Z.of_nat k ->
    Mock.Read_range md e p b
    = ({| Mock.on := Mock.on md; Mock.seqcounter := Mock.seqcounter md;
          Mock.datacounter := 0; Mock.readstate := 4 |},
       (rand_bytes k e).2, (rand_bytes k e).1, b + Z.of_nat k).
Proof.
  induction k as [|k IH]; intros [o sq dc rs] e p b Hlen Hk Hrs Hdc; [lia|].
  mock_fields. subst rs dc. destruct p as [|x p]; [discriminate|].
  injection Hlen as Hlen.
  cbn [Mock.Read_range rand_bytes]. unfold Mock.Read_slot. mock_fields.
  destruct (Mock.rand_Read e) as [y e1].
  assert (u8 (30 - Z.of_nat (S k) + 1) = 30 - Z.of_nat k) as ->
    by (unfold u8; rewrite Z.mod_small; lia).
  destruct (Z.eqb_spec (30 - Z.of_nat k) 30) as [Heq|Hne].
  - assert (k = 0%nat) as -> by lia. destruct p; [|discriminate].
    u8_const. reflexivity.
  - rewrite (IH _ e1 p (b + 1) Hlen) by (mock_fields; lia || reflexivity).
    mock_fields. destruct (rand_bytes k e1) as [xs e2]. cbn [fst snd].
    f_equal. lia.
Qed.

(** One cycle: from the header phase with no payload byte counted yet, 33
    slots take header, sequence byte, 30 payload bytes and footer, and the
    device is back in the header phase with the sequence counter one up. *)
Lemma Read_range_cycle (md : Mock.MockDevice) (e p : list Z) (b : Z) :
  length p = 33%nat ->
  Mock.readstate md = 1 -> Mock.datacounter md = 0 ->
  Mock.Read_range md e p b
  = ({| Mock.on := Mock.on md; Mock.seqcounter := u8 (Mock.seqcounter md + 1);
        Mock.datacounter := 0; Mock.readstate := 1 |},
     (rand_bytes 30 e).2, cycle (Mock.seqcounter md) e, b + 33).
Proof.
  destruct md as [o sq dc rs]. mock_fields. intros Hlen -> ->.
  destruct p as [|x0 [|x1 p]]; try discriminate.
  assert (length p = 31%nat) as Hp by (simpl in Hlen; lia).
  rewrite <- (take_drop 30 p).
  assert (length (take 30 p) = 30%nat) as Ht by (rewrite length_take; lia).
  assert (length (drop 30 p) = 1%nat) as Hd by (rewrite length_drop; lia).
  destruct (drop 30 p) as [|x32 [|? ?]]; try discriminate.
  cbn [Mock.Read_range]. unfold Mock.Read_slot at 1 2. mock_fields. u8_const.
  mock_fields. rewrite Read_range_app.
  rewrite (Read_range_payload 30 _ e (take 30 p) (b + 1 + 1) Ht)
    by (mock_fields; lia || reflexivity).
  mock_fields. cbn [Mock.Read_range]. unfold Mock.Read_slot. mock_fields.
  unfold cycle. rewrite cmd_header, cmd_footer. cbn [app].
  f_equal. lia.
Qed.

(** [k] cycles in a row. *)
Lemma Read_range_cycles (k : nat) :
  forall (md : Mock.MockDevice) (e p : list Z) (b : Z),
    length p = (33 * k)%nat ->
    Mock.readstate md = 1 -> Mock.datacounter md = 0 ->
    exists md' e',
      Mock.Read_range md e p b
      = (md', e', cycles k (Mock.seqcounter md) e, b + 33 * Z.of_nat k).
Proof.
  induction k as [|k IH]; intros md e p b Hlen Hrs Hdc.
  - destruct p; [|discriminate]. exists md, e. cbn [Mock.Read_range cycles].
    f_equal. lia.
  - rewrite <- (take_drop 33 p), Read_range_app.
    rewrite (Read_range_cycle md e (take 33 p) b) by (rewrite ?length_take; lia || done).
    edestruct (IH {| Mock.on := Mock.on md;
                     Mock.seqcounter := u8 (Mock.seqcounter md + 1);
                     Mock.datacounter := 0; Mock.readstate := 1 |}
                  (rand_bytes 30 e).2 (drop 33 p) (b + 33)) as (md' & e' & ->);
      [rewrite length_drop; lia | reflexivity | reflexivity |].
    exists md', e'. mock_fields. cbn [cycles]. f_equal. lia.
Qed.

(** C4, as stated, fails: of the first 68 bytes that a freshly armed
    MockDevice emits, the first 34 have the packet shape and the next 34 do
    not; the byte after the first packet's closing footer is the header
    0xA0, not a second footer. *)
Lemma second_block_not_packet34 :
  let out := (Mock.Read armed [] (replicate 68 0)).1.2 in
  packet34 (block34 0 out) = true /\
  packet34 (block34 1 out) = false /\
  out !! 34%nat = Some 0xa0.
Proof. vm_compute. repeat split. Qed.

(** C4, amended: an armed MockDevice that stands at the start of a cycle
    emits, from the opening phase, the 34 bytes footer (0xC0), header
    (0xA0), sequence byte, 30 payload bytes, footer (0xC0); from the header
    phase, where every packet leaves it, the 33 bytes header, sequence byte,
    30 payload bytes, footer.  Either way it is then in the header phase
    again with the sequence counter one up: every packet after the first
    takes the footer that closed the packet before it as its opening
    footer. *)
Theorem MockDevice_packet_cycle (md : Mock.MockDevice) (e p : list Z) :
  Mock.on md = true -> Mock.datacounter md = 0 ->
  let next := {| Mock.on := true; Mock.seqcounter := u8 (Mock.seqcounter md + 1);
                 Mock.datacounter := 0; Mock.readstate := 1 |} in
  let frame := [0xa0; Mock.seqcounter md] ++ (rand_bytes 30 e).1 ++ [0xc0] in
  length (rand_bytes 30 e).1 = 30%nat /\
  (Mock.readstate md = 0 -> length p = 34%nat ->
   Mock.Read md e p = (next, (rand_bytes 30 e).2, 0xc0 :: frame, (34, None))) /\
  (Mock.readstate md = 1 -> length p = 33%nat ->
   Mock.Read md e p = (next, (rand_bytes 30 e).2, frame, (33, None))).
Proof.
  intros Hon Hdc next frame. split; [apply rand_bytes_length|]. split.
  - intros Hrs Hlen. unfold Mock.Read. rewrite Hon.
    destruct p as [|x0 p]; [discriminate|]. injection Hlen as Hlen.
    destruct md as [o sq dc rs]. mock_fields. subst o dc rs.
    cbn [Mock.Read_range]. unfold Mock.Read_slot at 1. mock_fields. u8_const.
    rewrite (Read_range_cycle _ e p (0 + 1) Hlen) by reflexivity.
    mock_fields. by rewrite cmd_footer.
  - intros Hrs Hlen. unfold Mock.Read. rewrite Hon.
    rewrite (Read_range_cycle md e p 0 Hlen Hrs Hdc). by rewrite Hon.
Qed.

Lemma MockDevice_packet_cycle_witness :
  Mock.on armed = true /\ Mock.datacounter armed = 0 /\
  Mock.readstate armed = 0 /\ length (replicate 34 0) = 34%nat /\
  Mock.Read armed [5; 6; 7] (replicate 34 0)
  = ({| Mock.on := true; Mock.seqcounter := 1;
        Mock.datacounter := 0; Mock.readstate := 1 |},
     [], [0xc0; 0xa0; 0; 5; 6; 7] ++ replicate 27 0 ++ [0xc0], (34, None)).
Proof.
  split; [reflexivity|]. split; [reflexivity|]. split; [reflexivity|].
  split; [reflexivity|].
  destruct (MockDevice_packet_cycle armed [5; 6; 7] (replicate 34 0)
              eq_refl eq_refl) as (_ & H0 & _).
  rewrite (H0 eq_refl eq_refl). reflexivity.
Defined.

(** ** The stream of a freshly armed MockDevice *)

Lemma phase_ok_armed : phase_ok armed.
Proof. change (0 <= 0 <= 4). lia. Qed.

(** Whatever the length of the buffer, a freshly armed device fills it with
    the front of the framed stream. *)
Lemma Read_range_armed (e p : list Z) :
  exists md' e',
    Mock.Read_range armed e p 0
    = (md', e', take (length p) (0xc0 :: cycles (length p) 0 e),
       Z.of_nat (length p)) /\
    Mock.on md' = true /\ phase_ok md'.
Proof.
  pose proof phase_ok_armed as Hok.
  destruct (Read_range_count p armed e 0 Hok)
    as (md1 & e1 & o1 & Hr & Hr0 & Hok1 & Hon1 & Hlen1).
  exists md1, e1. rewrite Hr. split; [|done]. rewrite Z.add_0_l. do 2 f_equal.
  set (pad := replicate (1 + 33 * length p - length p) 0).
  assert (length (p ++ pad) = S (33 * length p)) as Hlen.
  { rewrite length_app. unfold pad. rewrite length_replicate. lia. }
  pose proof (Read_range_app p pad armed e 0) as Happ. rewrite Hr in Happ.
  destruct (p ++ pad) as [|x0 q] eqn:Hq; [discriminate|].
  injection Hlen as Hlen.
  cbn [Mock.Read_range] in Happ. unfold Mock.Read_slot at 1 in Happ.
  change (Mock.readstate armed) with 0 in Happ. cbv iota in Happ.
  destruct (Read_range_cycles (length p)
              {| Mock.on := Mock.on armed; Mock.seqcounter := Mock.seqcounter armed;
                 Mock.datacounter := Mock.datacounter armed;
                 Mock.readstate := u8 (0 + 1) |}
              e q (0 + 1) Hlen eq_refl eq_refl) as (md2 & e2 & Hcyc).
  rewrite Hcyc in Happ. mock_fields.
  destruct (Mock.Read_range md1 e1 pad (0 + Z.of_nat (length p)))
    as [[[md3 e3] o3] b3].
  injection Happ as _ _ Hout _. rewrite cmd_footer in Hout.
  change (Mock.seqcounter armed) with 0 in Hout. rewrite Hout.
  by rewrite <- Hlen1, take_app_length.
Qed.

(** Successive reads fill every buffer, and their buffers in a row hold
    what one read into all the buffers in a row would hold. *)
Lemma Reads_concat (ps : list (list Z)) :
  forall (md : Mock.MockDevice) (e : list Z),
    Mock.on md = true -> phase_ok md ->
    exists md' e' outs,
      Mock.Reads md e ps = (md', e', outs) /\
      outs.*2 = map (fun p => (Z.of_nat (length p), None)) ps /\
      Mock.Read_range md e (concat ps) 0
      = (md', e', concat outs.*1, Z.of_nat (length (concat ps))).
Proof.
  induction ps as [|p ps IH]; intros md e Hon Hok.
  - exists md, e, []. by repeat split.
  - destruct (Read_range_count p md e 0 Hok)
      as (md1 & e1 & o1 & Hr & Hr0 & Hok1 & Hon1 & Hlen1).
    rewrite Hon in Hon1.
    destruct (IH md1 e1 Hon1 Hok1) as (md2 & e2 & outs & HR & Hn & Hc).
    exists md2, e2, ((o1, (Z.of_nat (length p), None)) :: outs).
    split_and!.
    + cbn [Mock.Reads]. unfold Mock.Read. rewrite Hon, Hr, HR.
      by rewrite Z.add_0_l.
    + cbn [fmap list_fmap map snd]. f_equal. exact Hn.
    + cbn [concat fmap list_fmap fst]. rewrite Read_range_app, Hr.
      destruct (Read_range_count (concat ps) md1 e1 0 Hok1)
        as (md3 & e3 & o3 & Hq & Hq0 & _).
      rewrite Hq0. rewrite Hq in Hc. injection Hc as <- <- <-.
      f_equal. rewrite length_app. lia.
Qed.

(** The sequence byte of the [k]-th cycle. *)
Lemma cycles_lookup (k : nat) :
  forall (K : nat) (seq : Z) (e : list Z),
    (k < K)%nat ->
    cycles K seq e !! (33 * k)%nat = Some 0xa0 /\
    cycles K seq e !! (1 + 33 * k)%nat = Some (Nat.iter k (fun s => u8 (s + 1)) seq) /\
    cycles K seq e !! (32 + 33 * k)%nat = Some 0xc0.
Proof.
  induction k as [|k IH]; intros K seq e HK; (destruct K as [|K]; [lia|]).
  - cbn [cycles]. rewrite !lookup_app_l by (rewrite cycle_length; lia).
    unfold cycle. split_and!; try reflexivity.
    rewrite (lookup_app_r [0xa0; seq]) by (simpl; lia).
    rewrite lookup_app_r by (rewrite rand_bytes_length; simpl; lia).
    rewrite rand_bytes_length. reflexivity.
  - cbn [cycles].
    rewrite !lookup_app_r by (rewrite cycle_length; lia).
    rewrite cycle_length.
    replace (33 * S k - 33)%nat with (33 * k)%nat by lia.
    replace (1 + 33 * S k - 33)%nat with (1 + 33 * k)%nat by lia.
    replace (32 + 33 * S k - 33)%nat with (32 + 33 * k)%nat by lia.
    destruct (IH K (u8 (seq + 1)) (rand_bytes 30 e).2) as (H1 & H2 & H3); [lia|].
    split_and!; try done. by rewrite H2, Nat.iter_succ_r.
Qed.

Lemma iter_u8_succ (k : nat) :
  Nat.iter k (fun s => u8 (s + 1)) 0 = Z.of_nat k mod 256.
Proof.
  induction k as [|k IH]; [reflexivity|].
  rewrite Nat.iter_succ, IH. unfold u8.
  by rewrite Nat2Z.inj_succ, Zplus_mod_idemp_l.
Qed.

(** C5: a freshly created MockDevice, armed by a write of the start byte,
    fills the buffer of every successive [Read], and the bytes of these
    buffers in a row are the front of the stream 0xC0 followed by the
    cycles header (0xA0), sequence byte, 30 payload bytes, footer (0xC0);
    the sequence byte of the cycle number [k] (from 0) is [k mod 256], so it
    goes up by one from each packet to the next and is 0 again at
    packet 256. *)
Theorem MockDevice_stream (e : list Z) (ps : list (list Z)) :
  let outs := (Mock.Reads armed e ps).2 in
  let total := length (concat ps) in
  outs.*2 = map (fun p => (Z.of_nat (length p), None)) ps /\
  concat outs.*1 = take total (0xc0 :: cycles total 0 e) /\
  (0xc0 :: cycles 257 0 e) !! (2 + 33 * 255)%nat = Some 255 /\
  (0xc0 :: cycles 257 0 e) !! (2 + 33 * 256)%nat = Some 0 /\
  forall k K : nat, (k < K)%nat ->
    (0xc0 :: cycles K 0 e) !! (1 + 33 * k)%nat = Some 0xa0 /\
    (0xc0 :: cycles K 0 e) !! (2 + 33 * k)%nat = Some (Z.of_nat k mod 256) /\
    (0xc0 :: cycles K 0 e) !! (33 + 33 * k)%nat = Some 0xc0.
Proof.
  intros outs total.
  assert (forall k K : nat, (k < K)%nat ->
    (0xc0 :: cycles K 0 e) !! (1 + 33 * k)%nat = Some 0xa0 /\
    (0xc0 :: cycles K 0 e) !! (2 + 33 * k)%nat = Some (Z.of_nat k mod 256) /\
    (0xc0 :: cycles K 0 e) !! (33 + 33 * k)%nat = Some 0xc0) as Hseq.
  { intros k K HK. destruct (cycles_lookup k K 0 e HK) as (H1 & H2 & H3).
    rewrite iter_u8_succ in H2.
    change (1 + 33 * k)%nat with (S (33 * k)).
    change (2 + 33 * k)%nat with (S (1 + 33 * k)).
    change (33 + 33 * k)%nat with (S (32 + 33 * k)).
    by rewrite !lookup_cons. }
  pose proof phase_ok_armed as Hok.
  destruct (Reads_concat ps armed e eq_refl Hok) as (md' & e' & os & HR & Hn & Hc).
  destruct (Read_range_armed e (concat ps)) as (md1 & e1 & Ha & _).
  subst outs total. rewrite HR. cbn [snd].
  split; [exact Hn|]. split; [congruence|].
  split; [apply (Hseq 255%nat 257%nat); lia|].
  split; [apply (Hseq 256%nat 257%nat); lia|]. exact Hseq.
Qed.

Lemma MockDevice_stream_witness :
  (256 < 300)%nat /\
  (0xc0 :: cycles 300 0 [1; 2; 3]) !! (2 + 33 * 256)%nat = Some (Z.of_nat 256 mod 256).
Proof.
  split; [lia|].
  destruct (MockDevice_stream [1; 2; 3] [[0; 0]; [0; 0; 0]]) as (_ & _ & _ & _ & H).
  apply (H 256%nat 300%nat). lia.
Defined.


(** * Further properties *)

(** ** The polling loop on a scripted read stream *)

Lemma copy_into_length (p data : list Z) : length (copy_into p data) = length p.
Proof. unfold copy_into. rewrite length_app, length_take, length_drop. lia. Qed.

Lemma int_add_small (a b : Z) :
  - 2 ^ 63 <= a + b < 2 ^ 63 -> int_add a b = a + b.
Proof.
  intros H. unfold int_add, int_wrap. rewrite Z.mod_small; lia.
Qed.

Lemma window_of_push (idx a b c x : Z) :
  0 <= idx ->
  set_index (window_of idx a b c) (Z.rem idx 3) x = Some (window_of (idx + 1) b c x).
Proof.
  intros Hidx. rewrite Z.rem_mod_nonneg by lia. unfold window_of.
  assert ((idx + 1) mod 3 = (idx mod 3 + 1) mod 3) as ->
    by (by rewrite Zplus_mod_idemp_l).
  assert (idx mod 3 = 0 \/ idx mod 3 = 1 \/ idx mod 3 = 2) as Hcase
    by (pose proof (Z.mod_pos_bound idx 3); lia).
  destruct Hcase as [-> | [-> | ->]]; reflexivity.
Qed.

Lemma window_of_init (idx a b c : Z) :
  window_of idx a b c = init_array <-> a = 0x24 /\ b = 0x24 /\ c = 0x24.
Proof.
  change init_array with [0x24; 0x24; 0x24]. unfold window_of.
  destruct (idx mod 3) as [|[[]|[]|]|]; split;
    try (intros H; injection H as -> -> ->; done);
    intros (-> & -> & ->); reflexivity.
Qed.

Lemma has_triple_tail (x : Z) (t : list Z) :
  has_triple (x :: t) = false -> has_triple t = false.
Proof.
  cbn [has_triple]. intros H. by apply orb_false_elim in H as [_ H].
Qed.

Lemma has_triple_head (b c x : Z) (l : list Z) :
  has_triple (b :: c :: x :: l) = false -> ~ (b = 0x24 /\ c = 0x24 /\ x = 0x24).
Proof. intros H (-> & -> & ->). discriminate H. Qed.

Lemma has_triple_app_l (l1 l2 : list Z) :
  has_triple (l1 ++ l2) = false -> has_triple l1 = false.
Proof.
  induction l1 as [|x l1 IH]; [done|]. cbn [app has_triple].
  intros H. apply orb_false_elim in H as [Hh Ht]. rewrite (IH Ht), orb_false_r.
  destruct l1 as [|y [|z l1]]; try done.
Qed.

Lemma has_triple_zeros (bs : list Z) :
  has_triple bs = false -> has_triple ([0; 0; 0] ++ bs) = false.
Proof.
  intros H. destruct bs as [|x [|y bs]]; try done.
Qed.

Lemma bytes_of_app (evs1 evs2 : list arrival) :
  bytes_of (evs1 ++ evs2) = bytes_of evs1 ++ bytes_of evs2.
Proof.
  induction evs1 as [|[b|data] evs1 IH]; cbn [app bytes_of]; by rewrite ?IH.
Qed.

Lemma last3_app (l1 l2 : list Z) :
  forall a b c,
    last3 a b c (l1 ++ l2)
    = last3 (last3 a b c l1).1.1 (last3 a b c l1).1.2 (last3 a b c l1).2 l2.
Proof.
  induction l1 as [|x l1 IH]; intros a b c; [reflexivity|]. apply IH.
Qed.

(** While no three init bytes in a row have arrived, the loop takes one
    read after the other and keeps the last three bytes in [scrolling]. *)
Lemma poll_skip (evs : list arrival) :
  forall fuel l ws rest a b c idx buf n,
    length buf = 1%nat -> 0 <= idx ->
    idx + Z.of_nat (length (bytes_of evs)) < 2 ^ 63 ->
    has_triple ([a; b; c] ++ bytes_of evs) = false ->
    exists buf', length buf' = 1%nat /\
      poll (length evs + fuel) script_Device
        {| written := l; write_script := ws;
           read_script := map arrival_script evs ++ rest |}
        buf (window_of idx a b c) idx n
      = poll fuel script_Device
          {| written := l; write_script := ws; read_script := rest |}
          buf' (window_after idx a b c (bytes_of evs))
          (idx + Z.of_nat (length (bytes_of evs))) n.
Proof.
  induction evs as [|[x|data] evs IH];
    intros fuel l ws rest a b c idx buf n Hbuf Hidx Hmax Hno.
  - exists buf. split; [done|]. unfold window_after.
    cbn [bytes_of length Z.of_nat last3 fst snd map app Nat.add].
    by rewrite Z.add_0_r.
  - cbn [bytes_of length] in Hmax. cbn [bytes_of app] in Hno.
    destruct buf as [|y [|? ?]]; try discriminate.
    cbn [length Nat.add map app]. rewrite poll_S.
    unfold Read, r_Read.
    cbn [r script_Device script_Read read_script written write_script
         arrival_script length].
    change (copy_into [y] [x]) with [x].
    change (get_index [x] 0) with (Some x). cbv beta iota.
    rewrite window_of_push by done.
    rewrite int_add_small by lia.
    destruct (decide (window_of (idx + 1) b c x = init_array)) as [Heq|Hne].
    { apply window_of_init in Heq. by apply has_triple_tail, has_triple_head in Hno. }
    destruct (IH fuel l ws rest b c x (idx + 1) [x] n) as (buf' & Hb' & ->);
      [done | lia | lia | by apply has_triple_tail in Hno |].
    exists buf'. split; [done|]. unfold window_after.
    cbn [bytes_of length last3].
    by replace (idx + 1 + Z.of_nat (length (bytes_of evs)))
      with (idx + Z.of_nat (S (length (bytes_of evs)))) by lia.
  - cbn [bytes_of] in Hmax, Hno |- *.
    cbn [length Nat.add map app]. rewrite poll_S.
    unfold Read, r_Read.
    cbn [r script_Device script_Read read_script written write_script
         arrival_script].
    apply (IH fuel l ws rest a b c idx (copy_into buf data) n);
      [by rewrite copy_into_length | done | done | done].
Qed.

(** Once the read stream is used up, every read reports [io.EOF] and the
    loop goes round without end. *)
Lemma poll_EOF_forever (fuel : nat) :
  forall l ws buf scrolling idx n,
    poll fuel script_Device
      {| written := l; write_script := ws; read_script := [] |}
      buf scrolling idx n
    = OutOfFuel {| written := l; write_script := ws; read_script := [] |}.
Proof.
  induction fuel as [|f IH]; intros l ws buf scrolling idx n; [reflexivity|].
  rewrite poll_S. unfold Read, r_Read.
  cbn [r script_Device script_Read read_script written write_script].
  apply IH.
Qed.

(** X1: the polling loop, started as [reset] starts it, leaves at the first
    three init bytes in a row.  On a read stream whose error-free bytes are
    [pre ++ [0x24; 0x24]] with no three init bytes in a row among them,
    followed by one more init byte, the loop takes exactly these reads
    (timeouts, and bytes delivered along with a timeout, are passed over),
    writes the start byte once and returns the count plus one, no error. *)
Theorem poll_exits_at_first_triple (evs : list arrival) (pre : list Z)
    (fuel : nat) (l : list (list Z)) (rest : list (list Z * option error)) (n : Z) :
  bytes_of evs = pre ++ [0x24; 0x24] ->
  has_triple (bytes_of evs) = false ->
  Z.of_nat (length (bytes_of evs)) + 1 < 2 ^ 63 ->
  poll (length evs + S (S fuel)) script_Device
    {| written := l; write_script := [];
       read_script := map arrival_script (evs ++ [Byte 0x24]) ++ rest |}
    [0] [0; 0; 0] 0 n
  = Done {| written := l ++ [[0x62]]; write_script := []; read_script := rest |}
         (int_add n 1, None).
Proof.
  intros Hb Hno Hmax. rewrite map_app, <- app_assoc.
  destruct (poll_skip evs (S (S fuel)) l [] (map arrival_script [Byte 0x24] ++ rest)
              0 0 0 0 [0] n) as (buf' & Hlen & Hs);
    [done | lia | lia | by apply has_triple_zeros |].
  change (window_of 0 0 0 0) with [0; 0; 0] in Hs. rewrite Hs. clear Hs.
  destruct buf' as [|y [|? ?]]; try discriminate.
  rewrite poll_S. unfold Read, r_Read.
  cbn [r script_Device script_Read read_script written write_script
       arrival_script length map app].
  change (copy_into [y] [36]) with [36].
  change (get_index [36] 0) with (Some 36). cbv beta iota.
  unfold window_after. rewrite window_of_push by lia.
  rewrite Hb, last3_app. cbn [last3 fst snd].
  destruct (decide (window_of (0 + Z.of_nat (length (pre ++ [36; 36])) + 1) 36 36 36
                    = init_array)) as [_|Hne];
    [|exfalso; apply Hne; by apply window_of_init].
  rewrite Write_passthrough by reflexivity.
  cbn [w script_Device script_Write write_script written read_script].
  reflexivity.
Qed.

Lemma poll_exits_at_first_triple_witness :
  poll (5 + 2) script_Device
    {| written := []; write_script := [];
       read_script :=
         map arrival_script
           ([Byte 1; Timeout []; Byte 0x24; Timeout [0x24]; Byte 0x24] ++ [Byte 0x24])
         ++ [([7], None)] |}
    [0] [0; 0; 0] 0 2
  = Done {| written := [] ++ [[0x62]]; write_script := [];
            read_script := [([7], None)] |} (int_add 2 1, None).
Proof.
  apply (poll_exits_at_first_triple
           [Byte 1; Timeout []; Byte 0x24; Timeout [0x24]; Byte 0x24] [1]
           0 [] [([7], None)] 2); [reflexivity | reflexivity | reflexivity].
Defined.

(** X2: a read error other than [io.EOF] that comes before three init bytes
    in a row ends the polling loop with that error and the count as it
    stood; nothing is written to the transport, so no start byte. *)
Theorem poll_hard_error_no_start (evs : list arrival) (fuel : nat)
    (l : list (list Z)) (ws : list (Z * option error)) (data : list Z)
    (code : nat) (rest : list (list Z * option error)) (n : Z) :
  has_triple (bytes_of evs) = false ->
  Z.of_nat (length (bytes_of evs)) < 2 ^ 63 ->
  poll (length evs + S fuel) script_Device
    {| written := l; write_script := ws;
       read_script := map arrival_script evs ++ (data, Some (ErrOther code)) :: rest |}
    [0] [0; 0; 0] 0 n
  = Done {| written := l; write_script := ws; read_script := rest |}
         (n, Some (ErrOther code)).
Proof.
  intros Hno Hmax.
  destruct (poll_skip evs (S fuel) l ws ((data, Some (ErrOther code)) :: rest)
              0 0 0 0 [0] n) as (buf' & Hlen & Hs);
    [done | lia | lia | by apply has_triple_zeros |].
  change (window_of 0 0 0 0) with [0; 0; 0] in Hs. rewrite Hs. clear Hs.
  rewrite poll_S. unfold Read, r_Read.
  cbn [r script_Device script_Read read_script written write_script].
  reflexivity.
Qed.

Lemma poll_hard_error_no_start_witness :
  poll (3 + 1) script_Device
    {| written := []; write_script := [];
       read_script := map arrival_script [Byte 0x24; Byte 0x24; Timeout []]
                      ++ ([0x24], Some (ErrOther 9)) :: [([0x24], None)] |}
    [0] [0; 0; 0] 0 2
  = Done {| written := []; write_script := []; read_script := [([0x24], None)] |}
         (2, Some (ErrOther 9)).
Proof.
  apply (poll_hard_error_no_start [Byte 0x24; Byte 0x24; Timeout []] 0
           [] [] [0x24] 9 [([0x24], None)] 2); [reflexivity | reflexivity].
Defined.

(** X3: the polling loop has no bound of its own.  On a read stream that
    holds no three init bytes in a row and then only times out, the loop is
    still running whatever the fuel. *)
Theorem poll_waits_without_triple (evs : list arrival) (l : list (list Z))
    (ws : list (Z * option error)) (n : Z) (fuel : nat) :
  has_triple (bytes_of evs) = false ->
  Z.of_nat (length (bytes_of evs)) < 2 ^ 63 ->
  exists s',
    poll fuel script_Device
      {| written := l; write_script := ws; read_script := map arrival_script evs |}
      [0] [0; 0; 0] 0 n
    = OutOfFuel s'.
Proof.
  intros Hno Hmax.
  assert (has_triple (bytes_of (take fuel evs)) = false) as Hno1.
  { rewrite <- (take_drop fuel evs), bytes_of_app in Hno.
    by apply has_triple_app_l in Hno. }
  assert (length (bytes_of (take fuel evs)) <= length (bytes_of evs))%nat as Hle.
  { rewrite <- (take_drop fuel evs) at 2. rewrite bytes_of_app, length_app. lia. }
  rewrite <- (take_drop fuel evs), map_app.
  destruct (poll_skip (take fuel evs) (fuel - length (take fuel evs)) l ws
              (map arrival_script (drop fuel evs)) 0 0 0 0 [0] n)
    as (buf' & Hlen & Hs); [done | lia | lia | by apply has_triple_zeros |].
  change (window_of 0 0 0 0) with [0; 0; 0] in Hs.
  replace (length (take fuel evs) + (fuel - length (take fuel evs)))%nat
    with fuel in Hs by (rewrite length_take; lia).
  rewrite Hs. clear Hs.
  destruct (decide (fuel <= length evs)%nat) as [Hf|Hf].
  - replace (fuel - length (take fuel evs))%nat with 0%nat
      by (rewrite length_take; lia).
    eexists. reflexivity.
  - rewrite drop_ge by lia. cbn [map]. rewrite poll_EOF_forever. eauto.
Qed.

Lemma poll_waits_without_triple_witness :
  exists s',
    poll 1000 script_Device
      {| written := []; write_script := [];
         read_script := map arrival_script [Byte 0x24; Byte 0x24; Byte 1; Byte 0x24] |}
      [0] [0; 0; 0] 0 2
    = OutOfFuel s'.
Proof.
  apply (poll_waits_without_triple [Byte 0x24; Byte 0x24; Byte 1; Byte 0x24]
           [] [] 2 1000); [reflexivity | reflexivity].
Defined.

(** ** The handshake on any transport *)

Lemma Write_passthrough_pos {T : Type} (d : Device T) (fuel : nat) (s : T)
    (buf : list Z) :
  (0 < fuel)%nat -> isReset buf = false ->
  Write fuel d s buf =
  match w d s buf with
  | (s', (n, Some e)) => Done s' (0, Some e)
  | (s', (n, None)) => Done s' (n, None)
  end.
Proof.
  intros Hf Hb. destruct fuel as [|f]; [lia|]. by apply Write_passthrough.
Qed.

(** X4: on no transport does [Device.Write] of a buffer that holds the reset
    byte return without error, and it never panics: within any fuel the call
    is either still running or has returned an error. *)
Theorem Write_reset_never_succeeds {T : Type} (d : Device T) (fuel : nat)
    (s : T) (buf : list Z) :
  isReset buf = true ->
  (forall s' n, Write fuel d s buf <> Done s' (n, None)) /\
  (forall s', Write fuel d s buf <> Panic s').
Proof.
  intros Hb. destruct (Write_reset_outcome d fuel) as [HW _].
  destruct (HW s buf Hb) as [[s1 ->]|(s1 & e & ->)]; split; congruence.
Qed.

Lemma Write_reset_never_succeeds_witness :
  isReset [0x01; 0x76] = true /\
  (forall s' n, Write 7 script_Device handshake_conn [0x01; 0x76] <> Done s' (n, None)) /\
  (forall s', Write 7 script_Device handshake_conn [0x01; 0x76] <> Panic s').
Proof.
  split; [reflexivity|].
  apply (Write_reset_never_succeeds script_Device 7 handshake_conn [0x01; 0x76]).
  reflexivity.
Defined.

(** X5: the handshake returns exactly when a stop write fails.  On a
    connection whose next writes succeed [length ns] times and then fail
    with [e], [Device.Write] of a buffer that holds the reset byte hands the
    transport [length ns + 1] stop bytes and nothing else, reads nothing,
    and returns the error [e] with the count 0. *)
Theorem Write_reset_ends_at_failed_stop (ns : list Z) :
  forall (fuel : nat) (l : list (list Z)) (m : Z) (e : error)
         (ws : list (Z * option error)) (rs : list (list Z * option error))
         (buf : list Z),
    isReset buf = true ->
    Write (2 * length ns + 3 + fuel) script_Device
      {| written := l;
         write_script := map (fun n => (n, None)) ns ++ (m, Some e) :: ws;
         read_script := rs |} buf
    = Done {| written := l ++ replicate (S (length ns)) [0x73];
              write_script := ws; read_script := rs |} (0, Some e).
Proof.
  induction ns as [|n0 ns IH]; intros fuel l m e ws rs buf Hb.
  - cbn [length Nat.mul Nat.add map app replicate].
    rewrite Write_S, Hb, reset_S, Write_passthrough by reflexivity.
    cbn [w script_Device script_Write write_script written read_script].
    reflexivity.
  - replace (2 * length (n0 :: ns) + 3 + fuel)%nat
      with (S (S (2 * length ns + 3 + fuel))) by (cbn [length]; lia).
    rewrite Write_S, Hb, reset_S.
    rewrite (Write_passthrough_pos script_Device (2 * length ns + 3 + fuel) _ [0x73])
      by (lia || reflexivity).
    cbn [w script_Device script_Write write_script written read_script map app].
    rewrite (IH fuel) by reflexivity.
    cbn [length replicate]. by rewrite <- app_assoc.
Qed.

Lemma Write_reset_ends_at_failed_stop_witness :
  isReset [0x76] = true /\
  Write (2 * 2 + 3 + 0) script_Device
    {| written := [];
       write_script := map (fun n => (n, None)) [1; 1] ++ (0, Some (ErrOther 3)) :: [];
       read_script := [([0x24], None)] |} [0x76]
  = Done {| written := [] ++ replicate 3 [0x73]; write_script := [];
            read_script := [([0x24], None)] |} (0, Some (ErrOther 3)).
Proof.
  split; [reflexivity|].
  apply (Write_reset_ends_at_failed_stop [1; 1] 0 [] 0 (ErrOther 3) []
           [([0x24], None)] [0x76]).
  reflexivity.
Defined.

(** ** Plain writes *)

Lemma isReset_absent (buf : list Z) : 0x76 ∉ buf -> isReset buf = false.
Proof.
  induction buf as [|val rest IH]; [done|]. intros Hn.
  apply not_elem_of_cons in Hn as [Hne Hn]. cbn [isReset]. rewrite cmd_reset.
  destruct (Z.eqb_spec val 0x76); [congruence|]. by apply IH.
Qed.

(** X6: a buffer in which the byte 0x76 does not occur never starts the
    handshake: [Device.Write] hands it to the transport in one write, as it
    is, and returns with any fuel; the count is the transport's when the
    write succeeds and 0 when it fails, with the transport's error. *)
Theorem Write_plain_is_one_transport_write {T : Type} (d : Device T)
    (fuel : nat) (s : T) (buf : list Z) :
  0x76 ∉ buf ->
  Write (S fuel) d s buf =
  match w d s buf with
  | (s', (n, Some e)) => Done s' (0, Some e)
  | (s', (n, None)) => Done s' (n, None)
  end.
Proof.
  intros Hn. apply Write_passthrough. by apply isReset_absent.
Qed.

Lemma Write_plain_is_one_transport_write_witness :
  Write 1 script_Device failing_conn [0x62; 0x73]
  = Done {| written := [[0x62; 0x73]]; write_script := [(0, Some (ErrOther 5))];
            read_script := [] |} (1, None).
Proof.
  rewrite (Write_plain_is_one_transport_write script_Device 0 failing_conn [0x62; 0x73]).
  - reflexivity.
  - intros H. repeat (apply elem_of_cons in H as [H|H]; [discriminate|]).
    by apply elem_of_nil in H.
Defined.

(** ** The MockDevice under any sequence of calls *)

Lemma Read_slot_inv (md : Mock.MockDevice) (e : list Z) (old b : Z) :
  mock_inv md -> mock_inv (Mock.Read_slot md e old b).1.1.1.
Proof.
  unfold mock_inv. destruct md as [o sq dc rs]. mock_fields.
  intros (Hsq & Hdc & Hrs & Hpay).
  assert (rs = 0 \/ rs = 1 \/ rs = 2 \/ rs = 3 \/ rs = 4) as Hcase by lia.
  assert (0 <= u8 (sq + 1) < 256) as Hsq' by (apply Z.mod_pos_bound; lia).
  unfold Mock.Read_slot.
  destruct Hcase as [-> | [-> | [-> | [-> | ->]]]]; mock_fields;
    try (cbn [fst snd]; mock_fields; u8_const; lia).
  destruct (Mock.rand_Read e) as [x e'].
  assert (u8 (dc + 1) = dc + 1) as -> by (unfold u8; rewrite Z.mod_small; lia).
  destruct (Z.eqb_spec (dc + 1) 30); cbn [fst snd]; mock_fields; u8_const; lia.
Qed.

Lemma Read_range_inv (p : list Z) :
  forall md e b, mock_inv md -> mock_inv (Mock.Read_range md e p b).1.1.1.
Proof.
  induction p as [|x p IH]; intros md e b Hinv; [done|].
  cbn [Mock.Read_range].
  pose proof (Read_slot_inv md e x b Hinv) as H1.
  destruct (Mock.Read_slot md e x b) as [[[md1 e1] y] b1]. cbn [fst] in H1.
  pose proof (IH md1 e1 b1 H1) as H2.
  by destruct (Mock.Read_range md1 e1 p b1) as [[[md2 e2] o] b2].
Qed.

Lemma apply_op_inv (md : Mock.MockDevice) (o : op) :
  mock_inv md -> mock_inv (apply_op md o).
Proof.
  intros Hinv. destruct o as [e p|p|]; cbn [apply_op].
  - unfold Mock.Read. destruct (Mock.on md); [|done].
    pose proof (Read_range_inv p md e 0 Hinv) as H.
    by destruct (Mock.Read_range md e p 0) as [[[md' e'] o'] b'].
  - unfold Mock.Write. destruct p as [|p0 rest]; [done|]. cbn [fst].
    destruct (p0 =? Command_get "start"); [done|].
    by destruct (p0 =? Command_get "stop").
  - done.
Qed.

Lemma fold_apply_op_inv (ops : list op) :
  forall md, mock_inv md -> mock_inv (fold_left apply_op ops md).
Proof.
  induction ops as [|o ops IH]; intros md Hinv; [done|].
  cbn [fold_left]. by apply IH, apply_op_inv.
Qed.

Lemma NewMockDevice_inv : mock_inv Mock.NewMockDevice.
Proof. unfold mock_inv. cbn. lia. Qed.

(** X7: whatever reads, writes and closes a MockDevice has gone through
    since it was created, its sequence counter is a byte, its payload
    counter is below 30, its phase is one of the five of the [switch], and
    the payload counter is off zero in the payload phase only. *)
Theorem MockDevice_invariant (ops : list op) : mock_inv (after_ops ops).
Proof. apply fold_apply_op_inv, NewMockDevice_inv. Qed.

(** X8: an armed MockDevice, whatever calls it has gone through, fills the
    whole buffer of a [Read]: the count returned is the length of the
    buffer, with no error, and the device stays armed. *)
Theorem MockDevice_armed_Read_fills (ops : list op) (e p : list Z) :
  Mock.on (after_ops ops) = true ->
  exists md' e' out,
    Mock.Read (after_ops ops) e p = (md', e', out, (Z.of_nat (length p), None)) /\
    length out = length p /\ Mock.on md' = true.
Proof.
  intros Hon.
  pose proof (fold_apply_op_inv ops _ NewMockDevice_inv) as (_ & _ & Hrs & _).
  fold (after_ops ops) in Hrs.
  destruct (Read_range_count p (after_ops ops) e 0 Hrs)
    as (md' & e' & o & Hr & _ & _ & Hon' & Hlen).
  exists md', e', o. unfold Mock.Read. rewrite Hon, Hr, Z.add_0_l.
  split_and!; [done | done | congruence].
Qed.

Lemma MockDevice_armed_Read_fills_witness :
  exists md' e' out,
    Mock.Read (after_ops [OpWrite [0x62]; OpRead [9] [0; 0; 0; 0; 0]; OpWrite [0x73];
                          OpRead [] [0; 0]; OpWrite [0x62; 0x73]]) [4] [1; 2; 3]
    = (md', e', out, (Z.of_nat (length [1; 2; 3]), None)) /\
    length out = length [1; 2; 3] /\ Mock.on md' = true.
Proof.
  apply (MockDevice_armed_Read_fills
           [OpWrite [0x62]; OpRead [9] [0; 0; 0; 0; 0]; OpWrite [0x73];
            OpRead [] [0; 0]; OpWrite [0x62; 0x73]] [4] [1; 2; 3]).
  reflexivity.
Defined.

(** ** How reads of a MockDevice compose *)

(** The count [b] is an accumulator, and a slot leaves the armed flag as it
    is, in every phase. *)
Lemma Read_slot_acc (md : Mock.MockDevice) (e : list Z) (old : Z) :
  exists md' e' x d,
    (forall b, Mock.Read_slot md e old b = (md', e', x, b + d)) /\
    Mock.on md' = Mock.on md.
Proof.
  unfold Mock.Read_slot. destruct (Mock.rand_Read e) as [y e1].
  repeat case_match;
    try (eexists _, _, _, 1; split; [intros b0; reflexivity | reflexivity]).
  all: eexists _, _, _, 0; split; [intros b0; by rewrite Z.add_0_r | reflexivity].
Qed.

Lemma Read_range_acc (p : list Z) :
  forall md e,
    exists md' e' o d,
      (forall b, Mock.Read_range md e p b = (md', e', o, b + d)) /\
      Mock.on md' = Mock.on md.
Proof.
  induction p as [|x p IH]; intros md e.
  - exists md, e, [], 0. split; [|done]. intros b. cbn. by rewrite Z.add_0_r.
  - destruct (Read_slot_acc md e x) as (md1 & e1 & y & d1 & Hs & Hon1).
    destruct (IH md1 e1) as (md2 & e2 & o & d2 & Hr & Hon2).
    exists md2, e2, (y :: o), (d1 + d2). split; [|congruence].
    intros b. cbn [Mock.Read_range]. rewrite Hs, Hr. f_equal. lia.
Qed.

(** X9: the stream of a MockDevice does not depend on how the reads are
    cut: one [Read] into [p1 ++ p2] leaves the device, the random source and
    the bytes exactly as a [Read] into [p1] followed by a [Read] into [p2]
    does, and its count is the sum of the two counts. *)
Theorem MockDevice_Read_app (md : Mock.MockDevice) (e p1 p2 : list Z) :
  Mock.Read md e (p1 ++ p2) =
  let '(md1, e1, o1, (n1, _)) := Mock.Read md e p1 in
  let '(md2, e2, o2, (n2, _)) := Mock.Read md1 e1 p2 in
  (md2, e2, o1 ++ o2, (n1 + n2, None)).
Proof.
  unfold Mock.Read. destruct (Mock.on md) eqn:Hon.
  - rewrite Read_range_app.
    destruct (Read_range_acc p1 md e) as (md1 & e1 & o1 & d1 & H1 & Hon1).
    destruct (Read_range_acc p2 md1 e1) as (md2 & e2 & o2 & d2 & H2 & Hon2).
    rewrite !H1, Hon1, Hon, !H2. reflexivity.
  - by rewrite Hon.
Qed.

(** ** The sequence counter over many packets *)

Lemma iter_u8_from (k : nat) (s : Z) :
  0 <= s < 256 ->
  Nat.iter k (fun s => u8 (s + 1)) s = (s + Z.of_nat k) mod 256.
Proof.
  intros Hs. induction k as [|k IH].
  - change (s = (s + 0) mod 256). rewrite Z.add_0_r, Z.mod_small; [done|lia].
  - rewrite Nat.iter_succ, IH. unfold u8.
    rewrite Zplus_mod_idemp_l. f_equal. lia.
Qed.

Lemma Read_range_cycles_state (k : nat) :
  forall (md : Mock.MockDevice) (e p : list Z) (b : Z),
    length p = (33 * k)%nat ->
    Mock.readstate md = 1 -> Mock.datacounter md = 0 ->
    (Mock.Read_range md e p b).1.1.1
    = {| Mock.on := Mock.on md;
         Mock.seqcounter := Nat.iter k (fun s => u8 (s + 1)) (Mock.seqcounter md);
         Mock.datacounter := 0; Mock.readstate := 1 |}.
Proof.
  induction k as [|k IH]; intros md e p b Hlen Hrs Hdc.
  - destruct p; [|discriminate]. destruct md as [o sq dc rs]. mock_fields.
    by subst.
  - rewrite <- (take_drop 33 p), Read_range_app.
    rewrite (Read_range_cycle md e (take 33 p) b) by (rewrite ?length_take; lia || done).
    specialize (IH {| Mock.on := Mock.on md;
                      Mock.seqcounter := u8 (Mock.seqcounter md + 1);
                      Mock.datacounter := 0; Mock.readstate := 1 |}
                   (rand_bytes 30 e).2 (drop 33 p) (b + 33)).
    destruct (Mock.Read_range _ (rand_bytes 30 e).2 (drop 33 p) (b + 33))
      as [[[md2 e2] o2] b2].
    cbn [fst] in IH |- *. rewrite IH by (rewrite ?length_drop; lia || done).
    mock_fields. by rewrite Nat.iter_succ_r.
Qed.

(** X10: from the header phase, a read of [k] whole cycles (33 bytes each)
    leaves the MockDevice in the header phase with the sequence counter [k]
    further on, modulo 256; after 256 cycles, 8448 bytes, the device is
    exactly as it was. *)
Theorem MockDevice_sequence_period (md : Mock.MockDevice) (e p : list Z) (k : nat) :
  Mock.on md = true ->
  Mock.readstate md = 1 -> Mock.datacounter md = 0 ->
  0 <= Mock.seqcounter md < 256 ->
  length p = (33 * k)%nat ->
  (Mock.Read md e p).1.1.1
  = {| Mock.on := true;
       Mock.seqcounter := (Mock.seqcounter md + Z.of_nat k) mod 256;
       Mock.datacounter := 0; Mock.readstate := 1 |} /\
  (k = 256%nat -> (Mock.Read md e p).1.1.1 = md).
Proof.
  intros Hon Hrs Hdc Hsq Hlen.
  assert ((Mock.Read md e p).1.1.1
          = {| Mock.on := true;
               Mock.seqcounter := (Mock.seqcounter md + Z.of_nat k) mod 256;
               Mock.datacounter := 0; Mock.readstate := 1 |}) as Hst.
  { unfold Mock.Read. rewrite Hon.
    pose proof (Read_range_cycles_state k md e p 0 Hlen Hrs Hdc) as H.
    destruct (Mock.Read_range md e p 0) as [[[md' e'] o'] b'].
    cbn [fst] in H |- *. by rewrite H, Hon, iter_u8_from. }
  split; [exact Hst|]. intros ->. rewrite Hst.
  destruct md as [o sq dc rs]. mock_fields. subst.
  f_equal. change (Z.of_nat 256) with (1 * 256).
  rewrite Z_mod_plus_full. by apply Z.mod_small.
Qed.

Lemma MockDevice_sequence_period_witness :
  (Mock.Read {| Mock.on := true; Mock.seqcounter := 254;
                Mock.datacounter := 0; Mock.readstate := 1 |}
             [] (replicate 99 0)).1.1.1
  = {| Mock.on := true; Mock.seqcounter := (254 + Z.of_nat 3) mod 256;
       Mock.datacounter := 0; Mock.readstate := 1 |}.
Proof.
  apply (MockDevice_sequence_period
           {| Mock.on := true; Mock.seqcounter := 254;
              Mock.datacounter := 0; Mock.readstate := 1 |}
           [] (replicate 99 0) 3); (reflexivity || (mock_fields; lia)).
Defined.

(** ** A phase outside the [switch] *)

Lemma Read_slot_outside (md : Mock.MockDevice) (e : list Z) (old b : Z) :
  ~ (0 <= Mock.readstate md <= 4) ->
  Mock.Read_slot md e old b = (md, e, old, b).
Proof.
  intros Hout. unfold Mock.Read_slot. destruct (Mock.rand_Read e) as [y e1].
  repeat case_match; try reflexivity; exfalso; apply Hout; lia.
Qed.

(** X11: the [switch] of [Read] has no default case: an armed MockDevice
    whose phase is none of 0 to 4 writes nothing into the buffer, draws no
    random byte, returns [(0, nil)] and stays as it is, so it never emits
    again. *)
Theorem MockDevice_Read_outside_phases (md : Mock.MockDevice) (e p : list Z) :
  Mock.on md = true -> ~ (0 <= Mock.readstate md <= 4) ->
  Mock.Read md e p = (md, e, p, (0, None)).
Proof.
  intros Hon Hout. unfold Mock.Read. rewrite Hon.
  assert (forall b, Mock.Read_range md e p b = (md, e, p, b)) as ->; [|done].
  induction p as [|x p IH]; intros b; [done|].
  cbn [Mock.Read_range]. by rewrite Read_slot_outside, IH.
Qed.

Lemma MockDevice_Read_outside_phases_witness :
  Mock.Read {| Mock.on := true; Mock.seqcounter := 0;
               Mock.datacounter := 0; Mock.readstate := 5 |} [7] [1; 2; 3]
  = ({| Mock.on := true; Mock.seqcounter := 0;
        Mock.datacounter := 0; Mock.readstate := 5 |}, [7], [1; 2; 3], (0, None)).
Proof.
  apply (MockDevice_Read_outside_phases
           {| Mock.on := true; Mock.seqcounter := 0;
              Mock.datacounter := 0; Mock.readstate := 5 |} [7] [1; 2; 3]);
    [reflexivity | mock_fields; lia].
Defined.

(** ** Array bounds in the handshake *)

Lemma get_index_0_single (buf : list Z) :
  length buf = 1%nat -> exists b, get_index buf 0 = Some b.
Proof.
  destruct buf as [|b [|? ?]]; try discriminate. intros _. by exists b.
Qed.

Lemma set_index_rem3 (scrolling : list Z) (idx b : Z) :
  length scrolling = 3%nat -> 0 <= idx ->
  exists scrolling1,
    set_index scrolling (Z.rem idx 3) b = Some scrolling1 /\
    length scrolling1 = 3%nat.
Proof.
  intros Hlen Hidx. unfold set_index. rewrite Hlen, Z.rem_mod_nonneg by lia.
  pose proof (Z.mod_pos_bound idx 3 ltac:(lia)) as Hm.
  destruct (Z.leb_spec 0 (idx mod 3)); [|lia].
  destruct (Z.ltb_spec (idx mod 3) (Z.of_nat 3)); [|lia].
  eexists. split; [reflexivity|]. by rewrite length_insert.
Qed.

Lemma no_panic {T : Type} (d : Device T) (fuel : nat) :
  (Z.of_nat fuel < 2 ^ 63 ->
   forall s buf s', Write fuel d s buf <> Panic s') /\
  (Z.of_nat fuel < 2 ^ 63 ->
   forall s buf s', reset fuel d s buf <> Panic s') /\
  (forall s buf scrolling idx n s',
     length buf = 1%nat -> length scrolling = 3%nat ->
     0 <= idx -> idx + Z.of_nat fuel < 2 ^ 63 ->
     poll fuel d s buf scrolling idx n <> Panic s').
Proof.
  induction fuel as [|f (IHW & IHR & IHP)]; [by repeat split|].
  split_and!.
  - intros Hf s buf s'. rewrite Write_S. destruct (isReset buf).
    + specialize (IHR ltac:(lia) s buf).
      destruct (reset f d s buf) as [s1 [n1 [e1|]]|s1|s1]; try done.
      all: by specialize (IHR s1).
    + by destruct (w d s buf) as [s1 [n1 [e1|]]].
  - intros Hf s buf s'. rewrite reset_S.
    pose proof (IHW ltac:(lia) s [0x73]) as H0.
    destruct (Write f d s [0x73]) as [s0 [n0 [e0|]]|s0|s0]; try done;
      try (by specialize (H0 s0)).
    pose proof (IHW ltac:(lia) s0 [0x76]) as H1.
    destruct (Write f d s0 [0x76]) as [s1 [n1 [e1|]]|s1|s1]; try done;
      try (by specialize (H1 s1)).
    apply IHP; (done || lia).
  - intros s buf scrolling idx n s' Hbuf Hscr Hidx Hmax. rewrite poll_S.
    unfold Read, r_Read.
    destruct (r d s (length buf)) as [s1 [data err]].
    assert (length (copy_into buf data) = 1%nat) as Hbuf1
      by (by rewrite copy_into_length).
    destruct err as [[|code]|]; [apply IHP; (done || lia) | done |].
    destruct (get_index_0_single _ Hbuf1) as [b ->].
    destruct (set_index_rem3 scrolling idx b Hscr Hidx) as (scr1 & -> & Hscr1).
    destruct (decide (scr1 = init_array)).
    + pose proof (IHW ltac:(lia) s1 [0x62]) as H2.
      destruct (Write f d s1 [0x62]) as [s2 [n2 [e2|]]|s2|s2]; try done.
      all: by specialize (H2 s2).
    + rewrite int_add_small by lia. apply IHP; (done || lia).
Qed.

(** X12: the polling loop never indexes out of range.  Started with a
    one-byte read buffer, a three-byte [scrolling] and an index that is not
    negative, as [reset] starts it, and for as long as the index stays below
    2^63, the loop does not panic on any transport: the read buffer always
    has its byte, and [idx % 3] always falls inside [scrolling]. *)
Theorem poll_never_panics {T : Type} (d : Device T) (fuel : nat) (s s' : T)
    (buf scrolling : list Z) (idx n : Z) :
  length buf = 1%nat -> length scrolling = 3%nat ->
  0 <= idx -> idx + Z.of_nat fuel < 2 ^ 63 ->
  poll fuel d s buf scrolling idx n <> Panic s'.
Proof.
  intros Hbuf Hscr Hidx Hmax. destruct (no_panic d fuel) as (_ & _ & HP).
  by apply HP.
Qed.

Lemma poll_never_panics_witness :
  poll 50 script_Device silent_conn [0] [0; 0; 0] 0 2
  <> Panic {| written := []; write_script := []; read_script := [] |}.
Proof.
  apply (poll_never_panics script_Device 50 silent_conn
           {| written := []; write_script := []; read_script := [] |}
           [0] [0; 0; 0] 0 2); reflexivity || lia.
Defined.
